(** * The SLP decoder harness and the decoding engine it drives

    [src/ffi/main.c] is a command-line harness around two foreign functions,
    [slp_new_from_file] and [slp_free].  The first half of this file embeds
    the harness: [main] is a function from the command line and the behaviour
    of the foreign decoder to the trace of observable events and the value
    [main] returns.  The second half models the decoding engine behind
    [slp_new_from_file], whose code is not part of the C sources, from its
    written specification. *)

From Stdlib Require Import ZArith List String Ascii Bool Lia.
From Stdlib.Strings Require Byte.
Import ListNotations.

Local Open Scope Z_scope.

(** ** C integer types *)

(** The widths the C types of [main.c] have on a given target: [size_t] and
    [ssize_t] share [size_bits], [int] has [int_bits]. *)
Record Platform : Type := {
  size_bits : Z;
  int_bits : Z
}.

Definition LP64 : Platform := {| size_bits := 64; int_bits := 32 |}.

(** Reduction of a mathematical integer to an unsigned, resp. two's
    complement, integer of the given width. *)
Definition wrap_unsigned (bits z : Z) : Z := z mod 2 ^ bits.

Definition wrap_signed (bits z : Z) : Z :=
  (z + 2 ^ (bits - 1)) mod 2 ^ bits - 2 ^ (bits - 1).

Definition SIZE_MAX (P : Platform) : Z := 2 ^ size_bits P - 1.
Definition INT_MIN (P : Platform) : Z := - 2 ^ (int_bits P - 1).
Definition INT_MAX (P : Platform) : Z := 2 ^ (int_bits P - 1) - 1.

Definition is_size_t (P : Platform) (z : Z) : Prop := 0 <= z <= SIZE_MAX P.

Definition is_ssize_t (P : Platform) (z : Z) : Prop :=
  - 2 ^ (size_bits P - 1) <= z < 2 ^ (size_bits P - 1).

(** [frame_width * frame_height] on two [size_t] operands. *)
Definition size_mul (P : Platform) (a b : Z) : Z :=
  wrap_unsigned (size_bits P) (a * b).

(** [return code;] in [int main]: the [ssize_t] value converted to [int].
    A value [int] cannot represent is reduced modulo 2^N, as the compilers
    in use define the conversion. *)
Definition int_of_ssize (P : Platform) (code : Z) : Z :=
  wrap_signed (int_bits P) code.

(** ** Observable events of the harness *)

Inductive event : Type :=
| Printf (format : string) (args : list Z)
| Call_slp_new_from_file (file_path : string)
| Call_slp_free (image_data_buff : Z) (len : Z).

(** What a call of [slp_new_from_file] leaves behind: the returned code and
    the contents of the three out-parameters, which [main] initialises to
    [NULL], [0] and [0]. *)
Record decode_result : Type := {
  code : Z;
  ptr_image_data : Z;
  frame_width : Z;
  frame_height : Z
}.

Definition NULL : Z := 0.

(** A computation of the harness: the events it performed, in order, and
    its value. *)
Definition IO (A : Type) : Type := (list event * A)%type.

Definition ret {A : Type} (a : A) : IO A := ([], a).

Definition bind {A B : Type} (m : IO A) (k : A -> IO B) : IO B :=
  let (t1, a) := m in
  let (t2, b) := k a in
  (t1 ++ t2, b).

Definition emit (e : event) : IO unit := ([e], tt).

Notation "x <- m ;; k" := (bind m (fun x => k))
  (at level 61, m at next level, right associativity).
Notation "m ;; k" := (bind m (fun _ => k))
  (at level 61, right associativity).

Definition trace {A : Type} (m : IO A) : list event := fst m.
Definition returned {A : Type} (m : IO A) : A := snd m.

Definition printf (format : string) (args : list Z) : IO unit :=
  emit (Printf format args).

Definition newline : string := String (ascii_of_nat 10) EmptyString.

Definition usage_text : string :=
  ("usage: cslp <path/to/your.slp>" ++ newline)%string.

Definition image_data_len_format : string :=
  ("image_data_len: %zu" ++ newline)%string.

Definition ERR_NO_ARG : Z := 1.

(** The [switch (code)] of [main]: the five cases print, every other value
    falls through the switch without output. *)
Definition report (code : Z) : IO unit :=
  match code with
  | 1 => printf "'file_path' was null!" []
  | 2 => printf "'file_path' contained non-utf8 characters!" []
  | -1 => printf "Invalid SLP!" []
  | -2 => printf "SLP had a bad length" []
  | -32767 => printf "An unknown error occurred while decoding the SLP" []
  | _ => ret tt
  end.

Section Harness.

Variable P : Platform.

(** The foreign decoder, as the harness sees it. *)
Variable slp_new_from_file : string -> decode_result.

Definition call_slp_new_from_file (file_path : string) : IO decode_result :=
  emit (Call_slp_new_from_file file_path) ;;
  ret (slp_new_from_file file_path).

Definition slp_free (image_data_buff len : Z) : IO unit :=
  emit (Call_slp_free image_data_buff len).

(** [main], with [argc] the number of entries of [argv].  Control that
    reaches the closing brace of [main] returns [0]. *)
Definition main (argv : list string) : IO Z :=
  let argc := Z.of_nat (List.length argv) in
  if negb (argc =? 2) then
    printf usage_text [] ;;
    ret ERR_NO_ARG
  else
    let file_path := nth 1 argv EmptyString in
    r <- call_slp_new_from_file file_path ;;
    if negb (code r =? 0) then
      report (code r) ;;
      ret (int_of_ssize P (code r))
    else
      printf image_data_len_format
             [size_mul P (frame_width r) (frame_height r)] ;;
      slp_free (ptr_image_data r)
               (size_mul P (frame_width r) (frame_height r)) ;;
      ret 0.

End Harness.

(** The calls of [slp_free] in a trace, as (buffer, length) pairs. *)
Fixpoint releases (t : list event) : list (Z * Z) :=
  match t with
  | [] => []
  | Call_slp_free b l :: t' => (b, l) :: releases t'
  | _ :: t' => releases t'
  end.

(** The calls of [slp_new_from_file] in a trace: the paths passed. *)
Fixpoint decoder_calls (t : list event) : list string :=
  match t with
  | [] => []
  | Call_slp_new_from_file path :: t' => path :: decoder_calls t'
  | _ :: t' => decoder_calls t'
  end.

(** What a trace prints: the format and arguments of each [printf]. *)
Fixpoint printed (t : list event) : list (string * list Z) :=
  match t with
  | [] => []
  | Printf format args :: t' => (format, args) :: printed t'
  | _ :: t' => printed t'
  end.

Definition ILP32 : Platform := {| size_bits := 32; int_bits := 32 |}.

(** The codes the harness has a message for, with the message. *)
Definition known_codes : list (Z * string) :=
  [ (1, "'file_path' was null!"%string);
    (2, "'file_path' contained non-utf8 characters!"%string);
    (-1, "Invalid SLP!"%string);
    (-2, "SLP had a bad length"%string);
    (-32767, "An unknown error occurred while decoding the SLP"%string) ].

(** A decoder that answers every path the same way. *)
Definition always (r : decode_result) : string -> decode_result := fun _ => r.

Definition failing (c : Z) : decode_result :=
  {| code := c; ptr_image_data := NULL; frame_width := 0; frame_height := 0 |}.

Definition succeeding (buf w h : Z) : decode_result :=
  {| code := 0; ptr_image_data := buf; frame_width := w; frame_height := h |}.

(** ** The decoding engine

    [slp_new_from_file] is declared [extern] in [main.c]; its definition is
    not among the C sources.  The definitions of this part follow the
    written specification of the engine, component by component. *)

(** Modelled from the spec: the closed enumeration of failure kinds of the
    decoding engine (sections 4 and 9); the engine's code is missing. *)
Inductive ErrorKind : Type :=
| OutOfBounds
| InvalidFormat
| TruncatedHeader
| BadDirectoryEntry
| RowLengthMismatch
| RowOverrun
| UnknownCommand
| PaletteIndexOutOfRange.

Inductive Result (A : Type) : Type :=
| Ok (a : A)
| Err (e : ErrorKind).

Arguments Ok {A} a.
Arguments Err {A} e.

Definition and_then {A B : Type} (m : Result A) (k : A -> Result B) : Result B :=
  match m with
  | Ok a => k a
  | Err e => Err e
  end.

Notation "'do' x <- m ; k" := (and_then m (fun x => k))
  (at level 10, x name, m at level 100, k at level 200).

Fixpoint traverse {A B : Type} (f : A -> Result B) (l : list A) : Result (list B) :=
  match l with
  | [] => Ok []
  | a :: l' =>
      do b <- f a;
      do bs <- traverse f l';
      Ok (b :: bs)
  end.

(** Modelled from the spec: the legacy integer code of each failure kind at
    the boundary (section 6): header failures are [-1], failures of declared
    lengths and offsets against the container size are [-2], failures of
    command interpretation are [-32767]. *)
Definition status_of (e : ErrorKind) : Z :=
  match e with
  | InvalidFormat | TruncatedHeader => -1
  | OutOfBounds | BadDirectoryEntry => -2
  | RowLengthMismatch | RowOverrun | UnknownCommand
  | PaletteIndexOutOfRange => -32767
  end.


(** *** Byte cursor (section 4.1) *)

Definition RawContainer : Type := list Byte.byte.

Definition container_length (c : RawContainer) : Z := Z.of_nat (List.length c).

(** Modelled from the spec: [slice(offset, length)], failing with
    [OutOfBounds] when the read would exceed the container; the end
    position is computed without wrap-around. *)
Definition slice (c : RawContainer) (offset len : Z) : Result (list Byte.byte) :=
  if (0 <=? offset) && (0 <=? len) && (offset + len <=? container_length c)
  then Ok (firstn (Z.to_nat len) (skipn (Z.to_nat offset) c))
  else Err OutOfBounds.

Definition byte_value (b : Byte.byte) : Z := Z.of_N (Strings.Byte.to_N b).

(** The little-endian value of a byte sequence. *)
Fixpoint le_value (bs : list Byte.byte) : Z :=
  match bs with
  | [] => 0
  | b :: bs' => byte_value b + 256 * le_value bs'
  end.

(** Modelled from the spec: [read_u8], [read_u16_le], [read_u32_le]. *)
Definition read_le (width : Z) (c : RawContainer) (at_offset : Z) : Result Z :=
  do bs <- slice c at_offset width;
  Ok (le_value bs).

Definition read_u8 : RawContainer -> Z -> Result Z := read_le 1.
Definition read_u16_le : RawContainer -> Z -> Result Z := read_le 2.
Definition read_u32_le : RawContainer -> Z -> Result Z := read_le 4.

(** *** Container header (section 4.2) *)

(** Modelled from the spec: what section 4.2 and 4.3 leave to the format:
    the magic tag, the length of the version tag and which tags are
    recognised, the length of the comment, and the upper bound on frame
    dimensions. *)
Record Format : Type := {
  magic : list Byte.byte;
  version_len : nat;
  recognised_version : list Byte.byte -> bool;
  comment_len : nat;
  max_dimension : Z
}.

(** Modelled from the spec: the header of the data model (section 3), with
    the offset at which the frame directory begins. *)
Record Header : Type := {
  version : list Byte.byte;
  frame_count : Z;
  comment : list Byte.byte;
  directory_offset : Z
}.

Definition magic_len (F : Format) : Z := Z.of_nat (List.length (magic F)).

Definition header_size (F : Format) : Z :=
  magic_len F + Z.of_nat (version_len F) + 4 + Z.of_nat (comment_len F).

Definition bytes_eqb (a b : list Byte.byte) : bool :=
  if list_eq_dec Strings.Byte.byte_eq_dec a b then true else false.

(** Modelled from the spec: the header parser.  A file shorter than the
    fixed header is [TruncatedHeader]; a magic tag that is not byte-exact or
    an unrecognised version is [InvalidFormat]; the directory starts right
    after the fixed header. *)
Definition parse_header (F : Format) (c : RawContainer) : Result Header :=
  if container_length c <? header_size F then Err TruncatedHeader
  else
    do m <- slice c 0 (magic_len F);
    if negb (bytes_eqb m (magic F)) then Err InvalidFormat
    else
      do v <- slice c (magic_len F) (Z.of_nat (version_len F));
      if negb (recognised_version F v) then Err InvalidFormat
      else
        do n <- read_u32_le c (magic_len F + Z.of_nat (version_len F));
        do cm <- slice c (magic_len F + Z.of_nat (version_len F) + 4)
                       (Z.of_nat (comment_len F));
        Ok {| version := v; frame_count := n; comment := cm;
              directory_offset := header_size F |}.

(** *** Frame directory (section 4.3) *)

(** Modelled from the spec: the frame descriptor of the data model. *)
Record FrameDescriptor : Type := {
  image_data_offset : Z;
  outline_data_offset : Z;
  width : Z;
  height : Z;
  anchor_x : Z;
  anchor_y : Z
}.

Definition descriptor_size : Z := 24.

(** Modelled from the spec: one fixed-size descriptor record, its six
    fields read as little-endian 32-bit integers in the order the data
    model lists them. *)
Definition read_descriptor (c : RawContainer) (at_offset : Z) : Result FrameDescriptor :=
  do io <- read_u32_le c at_offset;
  do oo <- read_u32_le c (at_offset + 4);
  do w <- read_u32_le c (at_offset + 8);
  do h <- read_u32_le c (at_offset + 12);
  do ax <- read_u32_le c (at_offset + 16);
  do ay <- read_u32_le c (at_offset + 20);
  Ok {| image_data_offset := io; outline_data_offset := oo;
        width := w; height := h; anchor_x := ax; anchor_y := ay |}.

(** Modelled from the spec: the checks on one record. *)
Definition validate_descriptor (F : Format) (c : RawContainer)
    (fd : FrameDescriptor) : Result FrameDescriptor :=
  if (image_data_offset fd <? container_length c)
     && (width fd <=? max_dimension F)
     && (height fd <=? max_dimension F)
  then Ok fd
  else Err BadDirectoryEntry.

(** Modelled from the spec: the directory reader; any violation aborts, no
    partial list is returned. *)
Fixpoint read_directory (F : Format) (c : RawContainer) (at_offset : Z)
    (count : nat) : Result (list FrameDescriptor) :=
  match count with
  | O => Ok []
  | S count' =>
      do raw <- read_descriptor c at_offset;
      do fd <- validate_descriptor F c raw;
      do rest <- read_directory F c (at_offset + descriptor_size) count';
      Ok (fd :: rest)
  end.

(** *** Palette resolver (section 4.5) *)

Definition Pixel : Type := Z.

Definition transparent : Pixel := 0.

(** The three ways an index byte is resolved. *)
Inductive IndexClass : Type :=
| Plain
| PlayerColor
| Shadow.

(** The colour tables, read-only during a decode, and the caller's
    selection: which frame, and optionally which player's colours. *)
Record Colors : Type := {
  palette : list Pixel;
  player_table : nat -> list Pixel;
  default_player : nat;
  shadow_color : Pixel
}.

Record Request : Type := {
  frame_index : nat;
  player : option nat
}.

Definition selected_player (K : Colors) (q : Request) : nat :=
  match player q with
  | Some p => p
  | None => default_player K
  end.

Definition lookup (table : list Pixel) (index : nat) : Result Pixel :=
  match nth_error table index with
  | Some color => Ok color
  | None => Err PaletteIndexOutOfRange
  end.

(** Modelled from the spec: [resolve].  Plain indices go through the
    palette, player-colour indices through the remap table of the selected
    player, shadow indices to the fixed shadow colour. *)
Definition resolve (K : Colors) (q : Request) (cls : IndexClass)
    (index : nat) : Result Pixel :=
  match cls with
  | Plain => lookup (palette K) index
  | PlayerColor => lookup (player_table K (selected_player K q)) index
  | Shadow => Ok (shadow_color K)
  end.

(** *** Scanline command interpreter (section 4.4) *)

(** Modelled from the spec: the command variant of the data model.  The
    counted families carry their count; the two families that read index
    bytes carry the bytes read, whose number is the count. *)
Inductive Command : Type :=
| RawPixels (indices : list nat)
| SkipTransparent (count : nat)
| RepeatFill (count : nat) (value : nat)
| PlayerColorRun (indices : list nat)
| ShadowRun (count : nat)
| EndOfRow.

(** What decoding one command from the stream gives: a command of a known
    family, or a command byte outside all of them. *)
Inductive Decoded : Type :=
| Cmd (c : Command)
| Unrecognised (command_byte : Z).

Definition declared_count (c : Command) : nat :=
  match c with
  | RawPixels indices => List.length indices
  | SkipTransparent n => n
  | RepeatFill n _ => n
  | PlayerColorRun indices => List.length indices
  | ShadowRun n => n
  | EndOfRow => O
  end.

(** Modelled from the spec: the states of the interpreter. *)
Inductive RowState : Type :=
| RowStart
| InRow (pixels_written : nat)
| RowDone.

Definition written (st : RowState) (row_width : nat) : nat :=
  match st with
  | RowStart => O
  | InRow n => n
  | RowDone => row_width
  end.

(** The state after [n] pixels of a row of [row_width]: the row is done as
    soon as it is fully populated. *)
Definition after (row_width n : nat) : RowState :=
  if Nat.eqb n row_width then RowDone else InRow n.

(** Modelled from the spec: the pixels one counted command writes. *)
Definition pixels_of (K : Colors) (q : Request) (c : Command) : Result (list Pixel) :=
  match c with
  | RawPixels indices => traverse (resolve K q Plain) indices
  | SkipTransparent n => Ok (repeat transparent n)
  | RepeatFill n value =>
      do color <- resolve K q Plain value;
      Ok (repeat color n)
  | PlayerColorRun indices => traverse (resolve K q PlayerColor) indices
  | ShadowRun n =>
      do color <- resolve K q Shadow O;
      Ok (repeat color n)
  | EndOfRow => Ok []
  end.

(** Modelled from the spec: one transition of the interpreter, from a state
    with [pw] pixels written.  An explicit end of row is valid only on a
    full row; a count that would pass the width is [RowOverrun], checked on
    the declared count before anything is written. *)
Definition step (K : Colors) (q : Request) (row_width pw : nat) (d : Decoded)
    : Result (RowState * list Pixel) :=
  match d with
  | Unrecognised _ => Err UnknownCommand
  | Cmd EndOfRow =>
      if Nat.eqb pw row_width then Ok (RowDone, []) else Err RowLengthMismatch
  | Cmd c =>
      if Nat.ltb row_width (pw + declared_count c) then Err RowOverrun
      else
        do px <- pixels_of K q c;
        Ok (after row_width (pw + declared_count c), px)
  end.

(** Modelled from the spec: the interpreter run over the commands of one
    row from a given state.  It stops in [RowDone]; a stream that ends
    before the row is full is an underrun. *)
Fixpoint run (K : Colors) (q : Request) (row_width : nat) (st : RowState)
    (stream : list Decoded) : Result (list Pixel) :=
  match st with
  | RowDone => Ok []
  | _ =>
      match stream with
      | [] => Err RowLengthMismatch
      | d :: stream' =>
          do r <- step K q row_width (written st row_width) d;
          do rest <- run K q row_width (fst r) stream';
          Ok (snd r ++ rest)
      end
  end.

Definition run_row (K : Colors) (q : Request) (row_width : nat)
    (stream : list Decoded) : Result (list Pixel) :=
  run K q row_width RowStart stream.


(** *** Buffer assembler (section 4.6) *)

(** Overwrite [buf] from position [pos] on with the pixels [px]. *)
Fixpoint write_at (buf : list Pixel) (pos : nat) (px : list Pixel) : list Pixel :=
  match buf with
  | [] => []
  | b :: buf' =>
      match pos with
      | S pos' => b :: write_at buf' pos' px
      | O =>
          match px with
          | [] => buf
          | p :: px' => p :: write_at buf' O px'
          end
      end
  end.

Fixpoint write_rows (row_width : nat) (buf : list Pixel) (r : nat)
    (rows : list (list Pixel)) : list Pixel :=
  match rows with
  | [] => buf
  | px :: rows' =>
      write_rows row_width (write_at buf (r * row_width) px) (S r) rows'
  end.

(** Modelled from the spec: a transparent buffer of width*height slots,
    each decoded row written at its vertical offset. *)
Definition assemble (row_width rows_count : nat) (rows : list (list Pixel))
    : list Pixel :=
  write_rows row_width (repeat transparent (rows_count * row_width)) O rows.

(** *** The decode pipeline (section 2) *)

(** Modelled from the spec: the two parts of the format whose byte layout
    the specification leaves open (section 9): where the row offset table
    of a frame lies, and how the bytes at an offset decode into commands. *)
Record Codec : Type := {
  row_offset_table : RawContainer -> FrameDescriptor -> Result (list Z);
  command_stream : RawContainer -> Z -> list Decoded
}.

Record Engine : Type := {
  format : Format;
  colors : Colors;
  codec : Codec
}.

(** Modelled from the spec: one row, started at its own entry of the row
    offset table, the entry validated on its own. *)
Definition decode_row (E : Engine) (q : Request) (c : RawContainer)
    (fd : FrameDescriptor) (offset : Z) : Result (list Pixel) :=
  if (0 <=? offset) && (offset <? container_length c)
  then run_row (colors E) q (Z.to_nat (width fd))
               (command_stream (codec E) c offset)
  else Err OutOfBounds.

(** Modelled from the spec: one frame, row by row, then assembled. *)
Definition decode_frame (E : Engine) (q : Request) (c : RawContainer)
    (fd : FrameDescriptor) : Result (list Pixel) :=
  do table <- row_offset_table (codec E) c fd;
  if negb (Z.of_nat (List.length table) =? height fd) then Err OutOfBounds
  else
    do rows <- traverse (decode_row E q c fd) table;
    Ok (assemble (Z.to_nat (width fd)) (Z.to_nat (height fd)) rows).

(** Modelled from the spec: header, then directory, then the requested
    frame; the first failure aborts the decode. *)
Definition decode (E : Engine) (q : Request) (c : RawContainer)
    : Result (list Pixel * Z * Z) :=
  do h <- parse_header (format E) c;
  do dir <- read_directory (format E) c (directory_offset h)
                           (Z.to_nat (frame_count h));
  match nth_error dir (frame_index q) with
  | None => Err OutOfBounds
  | Some fd =>
      do px <- decode_frame E q c fd;
      Ok (px, width fd, height fd)
  end.

(** Modelled from the spec: the boundary of section 6 on the bytes of a
    file: the status code, and the buffer with its dimensions on success
    only. *)
Definition slp_decode (E : Engine) (q : Request) (c : RawContainer)
    : Z * option (list Pixel * Z * Z) :=
  match decode E q c with
  | Ok r => (0, Some r)
  | Err e => (status_of e, None)
  end.

(** *** Buffers handed across the boundary *)

(** Modelled from the spec: the store of pixel buffers the engine has
    allocated (section 4.6).  Slot [k] lives at address [k + 1], so that no
    buffer is at [NULL]; a released slot is empty. *)
Definition Heap : Type := list (option (list Pixel)).

Definition address_of_slot (k : nat) : Z := Z.of_nat k + 1.

Definition allocate (hp : Heap) (buf : list Pixel) : Heap * Z :=
  (hp ++ [Some buf], address_of_slot (List.length hp)).

(** Modelled from the spec: one decode call, with the store before and
    after it.  The decode itself reads nothing but the container; on success
    the buffer is placed in a fresh slot, on failure the store and the
    caller's variables are left alone. *)
Definition decode_call (E : Engine) (q : Request) (hp : Heap)
    (c : RawContainer) : Heap * decode_result :=
  match decode E q c with
  | Ok (px, w, h) =>
      let (hp', p) := allocate hp px in
      (hp', {| code := 0; ptr_image_data := p;
               frame_width := w; frame_height := h |})
  | Err e => (hp, failing (status_of e))
  end.

(** ** Sample data *)

Definition byte_of (z : Z) : Byte.byte :=
  match Strings.Byte.of_N (Z.to_N (z mod 256)) with
  | Some b => b
  | None => Byte.x00
  end.

Definition u32_le (z : Z) : list Byte.byte :=
  [byte_of z; byte_of (z / 256); byte_of (z / 65536); byte_of (z / 16777216)].

Definition sample_format : Format := {|
  magic := list_byte_of_string "SLPF";
  version_len := 4;
  recognised_version := fun v => bytes_eqb v (list_byte_of_string "2.0N");
  comment_len := 4;
  max_dimension := 4096
|}.

Definition opaque_black : Pixel := 4278190080.

Definition sample_colors : Colors := {|
  palette := [opaque_black];
  player_table := fun _ => [opaque_black];
  default_player := 1%nat;
  shadow_color := 2147483648
|}.

(** Every row of a frame is one [RawPixels] of two index-0 pixels. *)
Definition sample_codec : Codec := {|
  row_offset_table := fun _ fd =>
    Ok [image_data_offset fd; image_data_offset fd + 1];
  command_stream := fun _ _ => [Cmd (RawPixels [O; O])]
|}.




Definition sample_engine : Engine :=
  {| format := sample_format; colors := sample_colors; codec := sample_codec |}.




Definition first_frame : Request := {| frame_index := O; player := None |}.

Definition sample_descriptor (offset : Z) : list Byte.byte :=
  u32_le offset ++ u32_le 0 ++ u32_le 2 ++ u32_le 2 ++ u32_le 0 ++ u32_le 0.

(** A container with one 2x2 frame whose image data starts at byte 40. *)
Definition sample_container : RawContainer :=
  list_byte_of_string "SLPF" ++ list_byte_of_string "2.0N" ++ u32_le 1
  ++ list_byte_of_string "test" ++ sample_descriptor 40 ++ u32_le 0 ++ u32_le 0.



(** The same container with the first byte of the magic tag changed. *)
Definition corrupted_container : RawContainer :=
  list_byte_of_string "XLPF" ++ skipn 4 sample_container.

(** Two frames declared; the second descriptor points one past the end. *)
Definition bad_offset_container : RawContainer :=
  list_byte_of_string "SLPF" ++ list_byte_of_string "2.0N" ++ u32_le 2
  ++ list_byte_of_string "test" ++ sample_descriptor 64 ++ sample_descriptor 72
  ++ u32_le 0 ++ u32_le 0.

Definition bad_offset_header : Header := {|
  version := list_byte_of_string "2.0N";
  frame_count := 2;
  comment := list_byte_of_string "test";
  directory_offset := 16
|}.

Definition bad_offset_frame : FrameDescriptor := {|
  image_data_offset := 72; outline_data_offset := 0;
  width := 2; height := 2; anchor_x := 0; anchor_y := 0
|}.

(** The magic tag of a container is corrupted when at least one of its
    bytes is not the byte of the format's tag. *)
Definition magic_corrupted (F : Format) (c : RawContainer) : Prop :=
  exists i : nat,
    (i < List.length (magic F))%nat /\ nth_error c i <> nth_error (magic F) i.

(** * Properties of the harness *)

Lemma pow2_pos : forall n : Z, 0 <= n -> 0 < 2 ^ n.
Proof. intros n Hn. apply Z.pow_pos_nonneg; lia. Qed.

Lemma pow2_double : forall n : Z, 0 < n -> 2 ^ n = 2 * 2 ^ (n - 1).
Proof.
  intros n Hn. replace n with (Z.succ (n - 1)) at 1 by lia.
  apply Z.pow_succ_r. lia.
Qed.

Lemma wrap_signed_in_range :
  forall bits z : Z,
    0 < bits -> - 2 ^ (bits - 1) <= z < 2 ^ (bits - 1) ->
    wrap_signed bits z = z.
Proof.
  intros bits z Hb Hz. unfold wrap_signed.
  rewrite (pow2_double bits Hb).
  rewrite Z.mod_small; lia.
Qed.

Lemma wrap_unsigned_in_range :
  forall bits z : Z, 0 <= z < 2 ^ bits -> wrap_unsigned bits z = z.
Proof. intros bits z Hz. unfold wrap_unsigned. apply Z.mod_small. exact Hz. Qed.

Lemma int_holds_16_bits :
  forall P : Platform, 16 <= int_bits P -> 32768 <= 2 ^ (int_bits P - 1).
Proof.
  intros P H. change 32768 with (2 ^ 15).
  apply Z.pow_le_mono_r; lia.
Qed.

(** The [switch] as a chain of comparisons. *)
Lemma report_cases :
  forall c : Z,
    report c =
    if c =? 1 then printf "'file_path' was null!" []
    else if c =? 2 then printf "'file_path' contained non-utf8 characters!" []
    else if c =? -1 then printf "Invalid SLP!" []
    else if c =? -2 then printf "SLP had a bad length" []
    else if c =? -32767
         then printf "An unknown error occurred while decoding the SLP" []
    else ret tt.
Proof.
  intros [|p|p]; [reflexivity | |];
    repeat (destruct p as [p|p|]; try reflexivity).
Qed.

Lemma report_known :
  forall (c : Z) (message : string),
    In (c, message) known_codes -> report c = printf message [].
Proof.
  intros c message H. simpl in H.
  repeat (destruct H as [H|H]; [inversion H; reflexivity|]).
  contradiction.
Qed.

Lemma report_unknown :
  forall c : Z, ~ In c (map fst known_codes) -> report c = ret tt.
Proof.
  intros c H. rewrite report_cases. simpl in H.
  repeat match goal with
  | |- context [?a =? ?b] =>
      destruct (Z.eqb_spec a b); [exfalso; apply H; lia|]
  end.
  reflexivity.
Qed.

Lemma report_never_releases : forall c : Z, releases (trace (report c)) = [].
Proof.
  intros c. rewrite report_cases.
  repeat match goal with
  | |- context [if ?b then _ else _] => destruct b; [reflexivity|]
  end.
  reflexivity.
Qed.

(** [main] past the argument check. *)
Lemma main_with_path :
  forall (P : Platform) (decoder : string -> decode_result) (prog path : string),
    main P decoder [prog; path] =
    (r <- call_slp_new_from_file decoder path ;;
     if negb (code r =? 0) then
       report (code r) ;; ret (int_of_ssize P (code r))
     else
       printf image_data_len_format
              [size_mul P (frame_width r) (frame_height r)] ;;
       slp_free (ptr_image_data r)
                (size_mul P (frame_width r) (frame_height r)) ;;
       ret 0).
Proof. reflexivity. Qed.

Lemma main_on_failure :
  forall (P : Platform) (decoder : string -> decode_result) (prog path : string),
    code (decoder path) <> 0 ->
    main P decoder [prog; path] =
    (Call_slp_new_from_file path :: trace (report (code (decoder path))),
     int_of_ssize P (code (decoder path))).
Proof.
  intros P decoder prog path H. rewrite main_with_path.
  unfold call_slp_new_from_file, bind, emit, ret; simpl.
  destruct (Z.eqb_spec (code (decoder path)) 0) as [E|E]; [contradiction|].
  simpl. destruct (report (code (decoder path))) as [t u]. simpl.
  rewrite app_nil_r. reflexivity.
Qed.

Lemma main_on_success :
  forall (P : Platform) (decoder : string -> decode_result) (prog path : string),
    code (decoder path) = 0 ->
    main P decoder [prog; path] =
    ([Call_slp_new_from_file path;
      Printf image_data_len_format
        [size_mul P (frame_width (decoder path)) (frame_height (decoder path))];
      Call_slp_free (ptr_image_data (decoder path))
        (size_mul P (frame_width (decoder path)) (frame_height (decoder path)))],
     0).
Proof.
  intros P decoder prog path H. rewrite main_with_path.
  unfold call_slp_new_from_file, bind, emit, ret; simpl.
  rewrite H. reflexivity.
Qed.

(** C1. When the decoder returns one of the codes 1, 2, -1, -2 or -32767,
    the harness calls the decoder, prints the message of that code and
    nothing else, and returns the code itself; it does nothing more.  The
    width of [int] is at least the 16 bits the C language requires, which is
    what makes -32767 representable. *)
Theorem known_code_is_reported_and_returned :
  forall (P : Platform) (decoder : string -> decode_result)
         (prog path : string) (c : Z) (message : string),
    16 <= int_bits P ->
    code (decoder path) = c ->
    In (c, message) known_codes ->
    main P decoder [prog; path]
    = ([Call_slp_new_from_file path; Printf message []], c).
Proof.
  intros P decoder prog path c message Hint Hc Hin.
  assert (Hpow := int_holds_16_bits P Hint).
  assert (Hrange : -32768 < c < 32768 /\ c <> 0).
  { simpl in Hin.
    repeat (destruct Hin as [Hin|Hin]; [inversion Hin; lia|]).
    contradiction. }
  rewrite main_on_failure by (rewrite Hc; lia).
  rewrite Hc, (report_known c message Hin).
  unfold int_of_ssize. rewrite wrap_signed_in_range by lia.
  reflexivity.
Qed.

(** C2, as amended.  When the decoder returns 0 the harness calls
    [slp_free] exactly once, on the buffer the decoder returned, with the
    [size_t] product of the returned width and height, and then returns 0.
    That length is the exact product whenever the product is at most
    [SIZE_MAX]. *)
Theorem successful_decode_is_released_once :
  forall (P : Platform) (decoder : string -> decode_result)
         (prog path : string),
    code (decoder path) = 0 ->
    releases (trace (main P decoder [prog; path]))
    = [(ptr_image_data (decoder path),
        size_mul P (frame_width (decoder path)) (frame_height (decoder path)))]
    /\ returned (main P decoder [prog; path]) = 0
    /\ (0 <= frame_width (decoder path) * frame_height (decoder path)
          <= SIZE_MAX P ->
        size_mul P (frame_width (decoder path)) (frame_height (decoder path))
        = frame_width (decoder path) * frame_height (decoder path)).
Proof.
  intros P decoder prog path H.
  rewrite main_on_success by exact H.
  split; [reflexivity | split; [reflexivity|]].
  unfold SIZE_MAX, size_mul. intros Hfit.
  apply wrap_unsigned_in_range. lia.
Qed.

(** C2 as stated fails: with 64-bit [size_t], a width and a height of 2^32
    each are [size_t] values, the decoder returns 0, and the length passed to
    [slp_free] is 0, not the product 2^64. *)
Lemma release_length_is_not_the_product_on_LP64 :
  code (succeeding 4096 4294967296 4294967296) = 0
  /\ is_size_t LP64 (frame_width (succeeding 4096 4294967296 4294967296))
  /\ is_size_t LP64 (frame_height (succeeding 4096 4294967296 4294967296))
  /\ releases (trace (main LP64 (always (succeeding 4096 4294967296 4294967296))
                           ["cslp"; "big.slp"]%string))
     = [(4096, 0)]
  /\ 0 <> 4294967296 * 4294967296.
Proof.
  repeat split; try reflexivity; vm_compute; congruence.
Qed.

(** C3. When the decoder returns a nonzero code, the harness returns
    without a single call of [slp_free]. *)
Theorem failed_decode_is_never_released :
  forall (P : Platform) (decoder : string -> decode_result)
         (prog path : string),
    code (decoder path) <> 0 ->
    releases (trace (main P decoder [prog; path])) = []
    /\ forall buf len : Z,
         ~ In (Call_slp_free buf len) (trace (main P decoder [prog; path])).
Proof.
  intros P decoder prog path H.
  rewrite main_on_failure by exact H.
  assert (Hrel : releases (Call_slp_new_from_file path
                           :: trace (report (code (decoder path)))) = []).
  { simpl. apply report_never_releases. }
  split; [exact Hrel|].
  intros buf len Hin. simpl in Hin.
  destruct Hin as [Hin|Hin]; [discriminate|].
  revert Hin. rewrite report_cases.
  repeat match goal with
  | |- context [if ?b then _ else _] =>
      destruct b; [simpl; intros [Hin|[]]; discriminate|]
  end.
  simpl. tauto.
Qed.

(** C4. When [argv] has no entry for the path, [main] prints the usage
    line, returns 1, which is [ERR_NO_ARG], and never calls the decoder. *)
Theorem absent_path_gives_status_1 :
  forall (P : Platform) (decoder : string -> decode_result)
         (argv : list string),
    nth_error argv 1 = None ->
    main P decoder argv = ([Printf usage_text []], 1)
    /\ ERR_NO_ARG = 1
    /\ forall path : string,
         ~ In (Call_slp_new_from_file path) (trace (main P decoder argv)).
Proof.
  intros P decoder argv H.
  apply nth_error_None in H.
  assert (Hmain : main P decoder argv = ([Printf usage_text []], 1)).
  { unfold main.
    destruct (Z.eqb_spec (Z.of_nat (List.length argv)) 2) as [E|E]; [lia|].
    reflexivity. }
  rewrite Hmain. split; [reflexivity | split; [reflexivity|]].
  intros path [Hin|[]]. discriminate.
Qed.

(** C9, as amended.  When the decoder returns a nonzero code that is none
    of 1, 2, -1, -2, -32767, the harness prints nothing, calls [slp_free]
    not at all, and returns the code converted to [int]; that is the code
    itself whenever the code lies in the range of [int]. *)
Theorem unlisted_code_is_returned_silently :
  forall (P : Platform) (decoder : string -> decode_result)
         (prog path : string),
    code (decoder path) <> 0 ->
    ~ In (code (decoder path)) (map fst known_codes) ->
    main P decoder [prog; path]
    = ([Call_slp_new_from_file path], int_of_ssize P (code (decoder path)))
    /\ (0 < int_bits P ->
        INT_MIN P <= code (decoder path) <= INT_MAX P ->
        int_of_ssize P (code (decoder path)) = code (decoder path)).
Proof.
  intros P decoder prog path Hnz Hout.
  rewrite main_on_failure by exact Hnz.
  rewrite (report_unknown _ Hout). split; [reflexivity|].
  unfold INT_MIN, INT_MAX, int_of_ssize. intros Hbits Hfit.
  apply wrap_signed_in_range; lia.
Qed.

(** C9 as stated fails: with 64-bit [ssize_t] and 32-bit [int], the code
    2^32 is nonzero and none of the five listed codes, and [main] returns 0,
    not the code. *)
Lemma unlisted_code_is_not_returned_unchanged_on_LP64 :
  is_ssize_t LP64 (code (failing 4294967296))
  /\ code (failing 4294967296) <> 0
  /\ ~ In (code (failing 4294967296)) (map fst known_codes)
  /\ main LP64 (always (failing 4294967296)) ["cslp"; "a.slp"]%string
     = ([Call_slp_new_from_file "a.slp"], 0)
  /\ returned (main LP64 (always (failing 4294967296)) ["cslp"; "a.slp"]%string)
     <> code (failing 4294967296).
Proof.
  split; [vm_compute; split; congruence|].
  split; [vm_compute; congruence|].
  split; [simpl; intros H; repeat (destruct H as [H|H]; [discriminate|]);
          contradiction|].
  split; [reflexivity | vm_compute; congruence].
Qed.

(** C10. On success the length printed in the summary and the length
    passed to [slp_free] are one value: the product of width and height
    reduced modulo 2^w, [w] the width of [size_t].  When the true product
    exceeds 2^w - 1 that value is a [size_t] value different from the
    product. *)
Theorem printed_and_released_length_is_the_wrapped_product :
  forall (P : Platform) (decoder : string -> decode_result)
         (prog path : string),
    code (decoder path) = 0 ->
    exists len : Z,
      len = (frame_width (decoder path) * frame_height (decoder path))
              mod 2 ^ size_bits P
      /\ main P decoder [prog; path]
         = ([Call_slp_new_from_file path;
             Printf image_data_len_format [len];
             Call_slp_free (ptr_image_data (decoder path)) len], 0)
      /\ (0 <= size_bits P ->
          2 ^ size_bits P - 1
            < frame_width (decoder path) * frame_height (decoder path) ->
          0 <= len <= 2 ^ size_bits P - 1
          /\ len <> frame_width (decoder path) * frame_height (decoder path)).
Proof.
  intros P decoder prog path H.
  exists (size_mul P (frame_width (decoder path)) (frame_height (decoder path))).
  split; [reflexivity|].
  split; [apply main_on_success; exact H|].
  intros Hbits Hbig. unfold size_mul, wrap_unsigned.
  assert (Hpos := pow2_pos (size_bits P) Hbits).
  assert (Hmod := Z.mod_pos_bound
                    (frame_width (decoder path) * frame_height (decoder path))
                    (2 ^ size_bits P) Hpos).
  lia.
Qed.

(** * Properties of the decoding engine *)

Section ByteCursor.

Variable c : RawContainer.

Lemma slice_in_bounds :
  forall offset len : Z,
    0 <= offset -> 0 <= len -> offset + len <= container_length c ->
    slice c offset len
    = Ok (firstn (Z.to_nat len) (skipn (Z.to_nat offset) c)).
Proof.
  intros offset len Ho Hl Hend. unfold slice.
  destruct (Z.leb_spec 0 offset); [|lia].
  destruct (Z.leb_spec 0 len); [|lia].
  destruct (Z.leb_spec (offset + len) (container_length c)); [|lia].
  reflexivity.
Qed.

Lemma slice_fails_out_of_bounds :
  forall (offset len : Z) (e : ErrorKind),
    slice c offset len = Err e -> e = OutOfBounds.
Proof.
  intros offset len e. unfold slice.
  destruct ((0 <=? offset) && (0 <=? len)
            && (offset + len <=? container_length c)); congruence.
Qed.

Lemma read_le_fails_out_of_bounds :
  forall (w offset : Z) (e : ErrorKind),
    read_le w c offset = Err e -> e = OutOfBounds.
Proof.
  intros w offset e. unfold read_le.
  destruct (slice c offset w) eqn:Hs; simpl; [congruence|].
  intros H; inversion H; subst. eapply slice_fails_out_of_bounds; eauto.
Qed.

Lemma read_descriptor_fails_out_of_bounds :
  forall (offset : Z) (e : ErrorKind),
    read_descriptor c offset = Err e -> e = OutOfBounds.
Proof.
  intros offset e. unfold read_descriptor, read_u32_le.
  repeat match goal with
  | |- context [read_le 4 c ?o] =>
      let H := fresh "H" in
      destruct (read_le 4 c o) eqn:H; simpl;
      [| intros E; inversion E; subst;
         eapply read_le_fails_out_of_bounds; eauto]
  end.
  congruence.
Qed.

End ByteCursor.

Section HeaderAndDirectory.

Variable F : Format.
Variable c : RawContainer.

Lemma header_size_bounds : 0 <= magic_len F <= header_size F.
Proof. unfold header_size, magic_len. lia. Qed.

(** The header parser fails on every container, of whatever length, whose
    magic tag is corrupted, and the failure is of the [-1] class. *)
Lemma parse_header_rejects_corrupted_magic :
  magic_corrupted F c ->
  exists e : ErrorKind, parse_header F c = Err e /\ status_of e = -1.
Proof.
  intros (i & Hi & Hneq). unfold parse_header.
  destruct (Z.ltb_spec (container_length c) (header_size F)) as [Hshort|Hlong].
  - exists TruncatedHeader. split; reflexivity.
  - assert (Hb := header_size_bounds).
    rewrite slice_in_bounds by lia. simpl.
    unfold magic_len. rewrite Nat2Z.id.
    unfold bytes_eqb.
    destruct (list_eq_dec Strings.Byte.byte_eq_dec
                (firstn (List.length (magic F)) c) (magic F)) as [Heq|Hne].
    + exfalso. apply Hneq.
      replace (nth_error (magic F) i)
        with (nth_error (firstn (List.length (magic F)) c) i)
        by (rewrite Heq; reflexivity).
      rewrite nth_error_firstn.
      destruct (Nat.ltb_spec i (List.length (magic F))); [reflexivity | lia].
    + exists InvalidFormat. split; reflexivity.
Qed.

Lemma validate_descriptor_ok :
  forall fd fd' : FrameDescriptor,
    validate_descriptor F c fd = Ok fd' ->
    fd' = fd /\ image_data_offset fd < container_length c.
Proof.
  intros fd fd'. unfold validate_descriptor.
  destruct (Z.ltb_spec (image_data_offset fd) (container_length c));
    simpl; [|congruence].
  destruct ((width fd <=? max_dimension F)
            && (height fd <=? max_dimension F)); [|congruence].
  intros Hok; inversion Hok; subst. split; [reflexivity | assumption].
Qed.

Lemma validate_descriptor_fails :
  forall (fd : FrameDescriptor) (e : ErrorKind),
    validate_descriptor F c fd = Err e -> e = BadDirectoryEntry.
Proof.
  intros fd e. unfold validate_descriptor.
  destruct ((image_data_offset fd <? container_length c)
            && (width fd <=? max_dimension F)
            && (height fd <=? max_dimension F)); congruence.
Qed.

(** Every failure of the directory reader is of the [-2] class. *)
Lemma read_directory_fails_with_length_class :
  forall (count : nat) (offset : Z) (e : ErrorKind),
    read_directory F c offset count = Err e -> status_of e = -2.
Proof.
  induction count as [|count IH]; intros offset e; simpl; [congruence|].
  destruct (read_descriptor c offset) as [raw|e1] eqn:Hraw; simpl.
  - destruct (validate_descriptor F c raw) as [fd|e2] eqn:Hval; simpl.
    + destruct (read_directory F c (offset + descriptor_size) count)
        as [rest|e3] eqn:Hrest; simpl; [congruence|].
      intros H; inversion H; subst. eapply IH; eauto.
    + intros H; inversion H; subst.
      rewrite (validate_descriptor_fails _ _ Hval). reflexivity.
  - intros H; inversion H; subst.
    rewrite (read_descriptor_fails_out_of_bounds _ _ _ Hraw). reflexivity.
Qed.

(** A record whose image data offset is not below the container length
    makes the directory reader fail, wherever in the directory it is. *)
Lemma read_directory_rejects_bad_offset :
  forall (count : nat) (offset : Z) (i : nat) (fd : FrameDescriptor),
    (i < count)%nat ->
    read_descriptor c (offset + descriptor_size * Z.of_nat i) = Ok fd ->
    container_length c <= image_data_offset fd ->
    exists e : ErrorKind, read_directory F c offset count = Err e.
Proof.
  induction count as [|count IH]; intros offset i fd Hi Hread Hbad; [lia|].
  simpl.
  destruct (read_descriptor c offset) as [raw|e1] eqn:Hraw; simpl;
    [|eauto].
  destruct (validate_descriptor F c raw) as [fd0|e2] eqn:Hval; simpl;
    [|eauto].
  destruct i as [|i].
  - replace (offset + descriptor_size * Z.of_nat 0) with offset in Hread
      by lia.
    rewrite Hraw in Hread. inversion Hread; subst.
    apply validate_descriptor_ok in Hval. lia.
  - destruct (IH (offset + descriptor_size) i fd) as [e He];
      [lia | | exact Hbad | rewrite He; simpl; eauto].
    rewrite <- Hread. f_equal. lia.
Qed.

End HeaderAndDirectory.

(** C6. Whatever else a container holds, if at least one byte of its
    magic tag differs from the format's tag, the decode returns status -1
    and no buffer. *)
Theorem corrupted_magic_is_rejected_with_status_minus_1 :
  forall (E : Engine) (q : Request) (c : RawContainer),
    magic_corrupted (format E) c ->
    slp_decode E q c = (-1, None).
Proof.
  intros E q c H.
  destruct (parse_header_rejects_corrupted_magic (format E) c H)
    as (e & Hparse & Hstatus).
  unfold slp_decode, decode. rewrite Hparse. simpl.
  rewrite Hstatus. reflexivity.
Qed.

(** C7. If the header parses and any record of the directory, the first
    or a later one, has an image data offset greater than or equal to the
    container length, the decode returns status -2 and no buffer. *)
Theorem bad_image_offset_is_rejected_with_status_minus_2 :
  forall (E : Engine) (q : Request) (c : RawContainer) (h : Header)
         (i : Z) (fd : FrameDescriptor),
    parse_header (format E) c = Ok h ->
    0 <= i < frame_count h ->
    read_descriptor c (directory_offset h + descriptor_size * i) = Ok fd ->
    container_length c <= image_data_offset fd ->
    slp_decode E q c = (-2, None).
Proof.
  intros E q c h i fd Hparse Hi Hread Hbad.
  destruct (read_directory_rejects_bad_offset (format E) c
              (Z.to_nat (frame_count h)) (directory_offset h)
              (Z.to_nat i) fd) as [e He].
  - lia.
  - rewrite Z2Nat.id by lia. exact Hread.
  - exact Hbad.
  - unfold slp_decode, decode. rewrite Hparse. simpl. rewrite He. simpl.
    rewrite (read_directory_fails_with_length_class _ _ _ _ _ He).
    reflexivity.
Qed.

Section Traverse.

Context {A B : Type}.
Variable f : A -> Result B.






End Traverse.

Section Interpreter.

Variable K : Colors.
Variable q : Request.
Variable W : nat.
















End Interpreter.




Section Frame.

Variable E : Engine.
Variable q : Request.
Variable c : RawContainer.
Variable fd : FrameDescriptor.






End Frame.



(** * The theorems at concrete inputs *)

Lemma known_code_witness :
  16 <= int_bits LP64
  /\ code (always (failing (-32767)) "a.slp"%string) = -32767
  /\ In (-32767, "An unknown error occurred while decoding the SLP"%string)
        known_codes
  /\ main LP64 (always (failing (-32767))) ["cslp"; "a.slp"]%string
     = ([Call_slp_new_from_file "a.slp";
         Printf "An unknown error occurred while decoding the SLP" []],
        -32767).
Proof.
  assert (H1 : 16 <= int_bits LP64) by (simpl; lia).
  assert (H2 : code (always (failing (-32767)) "a.slp"%string) = -32767)
    by reflexivity.
  assert (H3 : In (-32767,
                   "An unknown error occurred while decoding the SLP"%string)
                  known_codes)
    by (simpl; tauto).
  split; [exact H1 | split; [exact H2 | split; [exact H3|]]].
  exact (known_code_is_reported_and_returned LP64 (always (failing (-32767)))
           "cslp" "a.slp" (-32767) _ H1 H2 H3).
Defined.

Lemma successful_decode_witness :
  code (always (succeeding 4096 2 2) "a.slp"%string) = 0
  /\ releases (trace (main LP64 (always (succeeding 4096 2 2))
                           ["cslp"; "a.slp"]%string))
     = [(4096, size_mul LP64 2 2)]
  /\ size_mul LP64 2 2 = 4.
Proof.
  assert (H : code (always (succeeding 4096 2 2) "a.slp"%string) = 0)
    by reflexivity.
  destruct (successful_decode_is_released_once LP64
              (always (succeeding 4096 2 2)) "cslp" "a.slp" H)
    as (Hrel & _ & Hexact).
  split; [exact H | split; [exact Hrel|]].
  apply Hexact. unfold SIZE_MAX, always, succeeding; simpl. lia.
Defined.

Lemma failed_decode_witness :
  code (always (failing (-1)) "a.slp"%string) <> 0
  /\ releases (trace (main LP64 (always (failing (-1)))
                           ["cslp"; "a.slp"]%string)) = [].
Proof.
  assert (H : code (always (failing (-1)) "a.slp"%string) <> 0)
    by (simpl; lia).
  split; [exact H|].
  exact (proj1 (failed_decode_is_never_released LP64 (always (failing (-1)))
                  "cslp" "a.slp" H)).
Defined.

Lemma absent_path_witness :
  nth_error ["cslp"%string] 1 = None
  /\ main LP64 (always (succeeding 4096 2 2)) ["cslp"%string]
     = ([Printf usage_text []], 1).
Proof.
  assert (H : nth_error ["cslp"%string] 1 = None) by reflexivity.
  split; [exact H|].
  exact (proj1 (absent_path_gives_status_1 LP64
                  (always (succeeding 4096 2 2)) ["cslp"%string] H)).
Defined.

Lemma unlisted_code_witness :
  code (always (failing 3) "a.slp"%string) <> 0
  /\ ~ In (code (always (failing 3) "a.slp"%string)) (map fst known_codes)
  /\ main LP64 (always (failing 3)) ["cslp"; "a.slp"]%string
     = ([Call_slp_new_from_file "a.slp"], int_of_ssize LP64 3)
  /\ int_of_ssize LP64 3 = 3.
Proof.
  assert (H1 : code (always (failing 3) "a.slp"%string) <> 0)
    by (simpl; lia).
  assert (H2 : ~ In (code (always (failing 3) "a.slp"%string))
                    (map fst known_codes))
    by (simpl; lia).
  destruct (unlisted_code_is_returned_silently LP64 (always (failing 3))
              "cslp" "a.slp" H1 H2) as [Hmain Hfit].
  split; [exact H1 | split; [exact H2 | split; [exact Hmain|]]].
  apply Hfit; unfold INT_MIN, INT_MAX; simpl; lia.
Defined.

Lemma wrapped_product_witness :
  code (always (succeeding 4096 4294967296 4294967297) "a.slp"%string) = 0
  /\ main LP64 (always (succeeding 4096 4294967296 4294967297))
          ["cslp"; "a.slp"]%string
     = ([Call_slp_new_from_file "a.slp";
         Printf image_data_len_format [4294967296];
         Call_slp_free 4096 4294967296], 0).
Proof.
  assert (H : code (always (succeeding 4096 4294967296 4294967297)
                      "a.slp"%string) = 0) by reflexivity.
  split; [exact H|].
  destruct (printed_and_released_length_is_the_wrapped_product LP64
              (always (succeeding 4096 4294967296 4294967297))
              "cslp" "a.slp" H) as (len & Hlen & Hmain & _).
  rewrite Hmain, Hlen. reflexivity.
Defined.


Lemma corrupted_magic_witness :
  magic_corrupted (format sample_engine) corrupted_container
  /\ slp_decode sample_engine first_frame corrupted_container = (-1, None).
Proof.
  assert (H : magic_corrupted (format sample_engine) corrupted_container).
  { exists O. split; [simpl; lia | vm_compute; congruence]. }
  split; [exact H|].
  exact (corrupted_magic_is_rejected_with_status_minus_1 sample_engine
           first_frame corrupted_container H).
Defined.

Lemma bad_image_offset_witness :
  parse_header (format sample_engine) bad_offset_container
    = Ok bad_offset_header
  /\ 0 <= 1 < frame_count bad_offset_header
  /\ read_descriptor bad_offset_container
       (directory_offset bad_offset_header + descriptor_size * 1)
     = Ok bad_offset_frame
  /\ container_length bad_offset_container
     <= image_data_offset bad_offset_frame
  /\ slp_decode sample_engine first_frame bad_offset_container = (-2, None).
Proof.
  assert (H1 : parse_header (format sample_engine) bad_offset_container
               = Ok bad_offset_header) by reflexivity.
  assert (H2 : 0 <= 1 < frame_count bad_offset_header) by (simpl; lia).
  assert (H3 : read_descriptor bad_offset_container
                 (directory_offset bad_offset_header + descriptor_size * 1)
               = Ok bad_offset_frame) by reflexivity.
  assert (H4 : container_length bad_offset_container
               <= image_data_offset bad_offset_frame)
    by (vm_compute; congruence).
  split; [exact H1 | split; [exact H2 | split; [exact H3 |
    split; [exact H4|]]]].
  exact (bad_image_offset_is_rejected_with_status_minus_2 sample_engine
           first_frame bad_offset_container bad_offset_header 1
           bad_offset_frame H1 H2 H3 H4).
Defined.

(** The scenario of a minimal container: one 2x2 frame, each row one
    [RawPixels] of two pixels of index 0, decodes to four opaque black
    pixels with status 0. *)
Example minimal_container_decodes :
  slp_decode sample_engine first_frame sample_container
  = (0, Some ([opaque_black; opaque_black; opaque_black; opaque_black], 2, 2)).
Proof. reflexivity. Qed.

(** The harness run against the modelled engine on that container. *)
Example harness_on_minimal_container :
  main LP64
       (fun _ => snd (decode_call sample_engine first_frame [] sample_container))
       ["cslp"; "minimal.slp"]%string
  = ([Call_slp_new_from_file "minimal.slp";
      Printf image_data_len_format [4];
      Call_slp_free 1 4], 0).
Proof. reflexivity. Qed.

(** * Further properties of the harness *)

Lemma main_without_path :
  forall (P : Platform) (decoder : string -> decode_result)
         (argv : list string),
    List.length argv <> 2%nat ->
    main P decoder argv = ([Printf usage_text []], ERR_NO_ARG).
Proof.
  intros P decoder argv H. unfold main.
  destruct (Z.eqb_spec (Z.of_nat (List.length argv)) 2) as [E|E]; [lia|].
  reflexivity.
Qed.

Lemma two_arguments :
  forall argv : list string,
    List.length argv = 2%nat ->
    exists prog : string, argv = [prog; nth 1 argv EmptyString].
Proof.
  intros [|prog [|path [|x argv]]] H; try discriminate.
  exists prog. reflexivity.
Qed.

(** What the [switch] prints: the message of a listed code, nothing for
    any other value. *)
Lemma report_trace :
  forall c : Z,
    (exists message : string,
        In (c, message) known_codes /\ trace (report c) = [Printf message []])
    \/ (~ In c (map fst known_codes) /\ trace (report c) = []).
Proof.
  intros c. destruct (in_dec Z.eq_dec c (map fst known_codes)) as [Hin|Hout].
  - left. apply in_map_iff in Hin. destruct Hin as ([c' message] & Hc & Hin).
    simpl in Hc. subst c'. exists message. split; [exact Hin|].
    rewrite (report_known c message Hin). reflexivity.
  - right. split; [exact Hout|]. rewrite (report_unknown c Hout). reflexivity.
Qed.

Lemma report_never_decodes :
  forall c : Z, decoder_calls (trace (report c)) = [].
Proof.
  intros c. destruct (report_trace c) as [(message & _ & Ht)|[_ Ht]];
    rewrite Ht; reflexivity.
Qed.

(** X1. With any number of command-line entries other than two, too many
    as well as too few, [main] prints the usage line, returns 1, and
    neither calls the decoder nor releases anything. *)
Theorem wrong_argument_count_only_prints_usage :
  forall (P : Platform) (decoder : string -> decode_result)
         (argv : list string),
    List.length argv <> 2%nat ->
    printed (trace (main P decoder argv)) = [(usage_text, [])]
    /\ returned (main P decoder argv) = 1
    /\ decoder_calls (trace (main P decoder argv)) = []
    /\ releases (trace (main P decoder argv)) = [].
Proof.
  intros P decoder argv H. rewrite (main_without_path P decoder argv H).
  repeat split.
Qed.

(** X2. With exactly two command-line entries, the decoder is called
    once and only once, on the second entry, and that call is the first
    thing [main] does: there is no retry, whatever the decoder answers. *)
Theorem decoder_is_called_exactly_once :
  forall (P : Platform) (decoder : string -> decode_result)
         (argv : list string),
    List.length argv = 2%nat ->
    decoder_calls (trace (main P decoder argv)) = [nth 1 argv EmptyString]
    /\ exists rest : list event,
         trace (main P decoder argv)
         = Call_slp_new_from_file (nth 1 argv EmptyString) :: rest.
Proof.
  intros P decoder argv H.
  destruct (two_arguments argv H) as [prog Hargv].
  set (path := nth 1 argv EmptyString) in *. rewrite Hargv.
  destruct (Z.eq_dec (code (decoder path)) 0) as [Hok|Hfail].
  - rewrite (main_on_success P decoder prog path Hok).
    split; [reflexivity | eexists; reflexivity].
  - rewrite (main_on_failure P decoder prog path Hfail).
    split; [|eexists; reflexivity].
    simpl. rewrite report_never_decodes. reflexivity.
Qed.

(** X3. For every command line and every decoder, [slp_free] is called
    when, and only when, there are two entries and the decoder returned 0;
    it is then called once, on the pointer and with the [size_t] product the
    decoder left in the out-parameters. *)
Theorem release_happens_exactly_on_success :
  forall (P : Platform) (decoder : string -> decode_result)
         (argv : list string),
    releases (trace (main P decoder argv))
    = if (Nat.eqb (List.length argv) 2
          && (code (decoder (nth 1 argv EmptyString)) =? 0))%bool
      then [(ptr_image_data (decoder (nth 1 argv EmptyString)),
             size_mul P (frame_width (decoder (nth 1 argv EmptyString)))
                        (frame_height (decoder (nth 1 argv EmptyString))))]
      else [].
Proof.
  intros P decoder argv.
  destruct (Nat.eqb_spec (List.length argv) 2) as [H|H]; simpl.
  - destruct (two_arguments argv H) as [prog Hargv].
    set (path := nth 1 argv EmptyString) in *. rewrite Hargv.
    destruct (Z.eqb_spec (code (decoder path)) 0) as [Hok|Hfail].
    + rewrite (main_on_success P decoder prog path Hok). reflexivity.
    + rewrite (main_on_failure P decoder prog path Hfail). simpl.
      apply report_never_releases.
  - rewrite (main_without_path P decoder argv H). reflexivity.
Qed.

Lemma wrap_signed_zero :
  forall bits z : Z,
    0 < bits -> (wrap_signed bits z = 0 <-> z mod 2 ^ bits = 0).
Proof.
  intros bits z Hb. unfold wrap_signed.
  assert (Hhalf : 0 < 2 ^ (bits - 1)) by (apply pow2_pos; lia).
  assert (Hdouble := pow2_double bits Hb).
  assert (Hm : 0 < 2 ^ bits) by lia.
  assert (Hsmall : 2 ^ (bits - 1) mod 2 ^ bits = 2 ^ (bits - 1))
    by (apply Z.mod_small; lia).
  split; intros H.
  - assert (Hsum : (z + 2 ^ (bits - 1)) mod 2 ^ bits = 2 ^ (bits - 1))
      by lia.
    replace z with (z + 2 ^ (bits - 1) - 2 ^ (bits - 1)) by lia.
    rewrite Zminus_mod, Hsum, Hsmall, Z.sub_diag.
    apply Z.mod_0_l. lia.
  - rewrite Zplus_mod, H, Z.add_0_l, Z.mod_mod, Hsmall by lia. lia.
Qed.

(** X4. [main] returns 0 exactly when there are two command-line entries
    and the decoder's code is a multiple of 2^N, [N] the width of [int]:
    on success, and on those failure codes the conversion to [int] maps
    to 0. *)
Theorem main_returns_zero_iff :
  forall (P : Platform) (decoder : string -> decode_result)
         (argv : list string),
    0 < int_bits P ->
    (returned (main P decoder argv) = 0
     <-> List.length argv = 2%nat
         /\ code (decoder (nth 1 argv EmptyString)) mod 2 ^ int_bits P = 0).
Proof.
  intros P decoder argv Hbits.
  destruct (Nat.eq_dec (List.length argv) 2) as [H|H].
  - destruct (two_arguments argv H) as [prog Hargv].
    set (path := nth 1 argv EmptyString) in *. rewrite Hargv.
    destruct (Z.eq_dec (code (decoder path)) 0) as [Hok|Hfail].
    + rewrite (main_on_success P decoder prog path Hok), Hok.
      unfold returned; simpl. rewrite Z.mod_0_l by (apply Z.pow_nonzero; lia).
      tauto.
    + rewrite (main_on_failure P decoder prog path Hfail).
      unfold returned, int_of_ssize; simpl.
      rewrite (wrap_signed_zero _ (code (decoder path)) Hbits). tauto.
  - rewrite (main_without_path P decoder argv H).
    unfold returned, ERR_NO_ARG; simpl. split; [lia | tauto].
Qed.

(** X5. With two command-line entries, whenever the decoder's code lies
    in the range of [int], be it 0, a listed code or any other, [main]
    returns that code itself. *)
Theorem representable_code_is_returned_unchanged :
  forall (P : Platform) (decoder : string -> decode_result)
         (prog path : string),
    0 < int_bits P ->
    INT_MIN P <= code (decoder path) <= INT_MAX P ->
    returned (main P decoder [prog; path]) = code (decoder path).
Proof.
  intros P decoder prog path Hbits Hfit.
  destruct (Z.eq_dec (code (decoder path)) 0) as [Hok|Hfail].
  - rewrite (main_on_success P decoder prog path Hok), Hok. reflexivity.
  - rewrite (main_on_failure P decoder prog path Hfail).
    unfold returned, int_of_ssize, INT_MIN, INT_MAX in *; simpl.
    apply wrap_signed_in_range; lia.
Qed.

(** X6. [main] prints nothing at all exactly when there are two
    command-line entries and the decoder returned a nonzero code that is
    none of the five listed ones; in every other run it prints. *)
Theorem main_is_silent_iff :
  forall (P : Platform) (decoder : string -> decode_result)
         (argv : list string),
    printed (trace (main P decoder argv)) = []
    <-> List.length argv = 2%nat
        /\ code (decoder (nth 1 argv EmptyString)) <> 0
        /\ ~ In (code (decoder (nth 1 argv EmptyString)))
                (map fst known_codes).
Proof.
  intros P decoder argv.
  destruct (Nat.eq_dec (List.length argv) 2) as [H|H].
  - destruct (two_arguments argv H) as [prog Hargv].
    set (path := nth 1 argv EmptyString) in *. rewrite Hargv.
    destruct (Z.eq_dec (code (decoder path)) 0) as [Hok|Hfail].
    + rewrite (main_on_success P decoder prog path Hok). simpl.
      split; [discriminate | tauto].
    + rewrite (main_on_failure P decoder prog path Hfail). simpl.
      destruct (report_trace (code (decoder path)))
        as [(message & Hin & Ht)|[Hout Ht]]; rewrite Ht; simpl.
      * split; [discriminate|]. intros (_ & _ & Hout). exfalso.
        apply Hout. exact (in_map fst known_codes _ Hin).
      * split; [|reflexivity].
        intros _. split; [reflexivity | split; [exact Hfail | exact Hout]].
  - rewrite (main_without_path P decoder argv H). simpl.
    split; [discriminate | tauto].
Qed.

(** X7. The message the [switch] prints identifies the code: two codes
    for which it prints the same text are the same code. *)
Theorem printed_message_identifies_the_code :
  forall (c1 c2 : Z) (message : string) (args : list Z),
    trace (report c1) = [Printf message args] ->
    trace (report c2) = [Printf message args] ->
    c1 = c2.
Proof.
  intros c1 c2 message args. rewrite !report_cases.
  repeat match goal with
  | |- context [?a =? ?b] => destruct (Z.eqb_spec a b)
  end;
  simpl; intros H1 H2; try discriminate; try lia; congruence.
Qed.

(** X8. Where [ssize_t] is no wider than [int], every code the decoder
    can return is returned by [main] unchanged, so that [main] returns 0
    only if the decoder did. *)
Theorem narrow_ssize_code_is_returned_unchanged :
  forall (P : Platform) (decoder : string -> decode_result)
         (prog path : string),
    0 < size_bits P <= int_bits P ->
    is_ssize_t P (code (decoder path)) ->
    returned (main P decoder [prog; path]) = code (decoder path)
    /\ (returned (main P decoder [prog; path]) = 0 ->
        code (decoder path) = 0).
Proof.
  intros P decoder prog path Hbits Hcode. unfold is_ssize_t in Hcode.
  assert (Hle : 2 ^ (size_bits P - 1) <= 2 ^ (int_bits P - 1))
    by (apply Z.pow_le_mono_r; lia).
  assert (Hret : returned (main P decoder [prog; path]) = code (decoder path)).
  { destruct (Z.eq_dec (code (decoder path)) 0) as [Hok|Hfail].
    - rewrite (main_on_success P decoder prog path Hok), Hok. reflexivity.
    - rewrite (main_on_failure P decoder prog path Hfail).
      unfold returned, int_of_ssize; simpl.
      apply wrap_signed_in_range; lia. }
  split; [exact Hret | rewrite Hret; tauto].
Qed.

Lemma wrong_argument_count_witness :
  List.length ["cslp"; "a.slp"; "b.slp"]%string <> 2%nat
  /\ printed (trace (main LP64 (always (succeeding 4096 2 2))
                          ["cslp"; "a.slp"; "b.slp"]%string))
     = [(usage_text, [])]
  /\ returned (main LP64 (always (succeeding 4096 2 2))
                    ["cslp"; "a.slp"; "b.slp"]%string) = 1.
Proof.
  assert (H : List.length ["cslp"; "a.slp"; "b.slp"]%string <> 2%nat)
    by (simpl; lia).
  destruct (wrong_argument_count_only_prints_usage LP64
              (always (succeeding 4096 2 2))
              ["cslp"; "a.slp"; "b.slp"]%string H) as (Hp & Hr & _).
  split; [exact H | split; [exact Hp | exact Hr]].
Defined.

Lemma decoder_call_witness :
  List.length ["cslp"; "a.slp"]%string = 2%nat
  /\ decoder_calls (trace (main LP64 (always (failing (-2)))
                                ["cslp"; "a.slp"]%string))
     = ["a.slp"%string].
Proof.
  assert (H : List.length ["cslp"; "a.slp"]%string = 2%nat) by reflexivity.
  split; [exact H|].
  exact (proj1 (decoder_is_called_exactly_once LP64 (always (failing (-2)))
                  ["cslp"; "a.slp"]%string H)).
Defined.

Lemma main_returns_zero_witness :
  0 < int_bits LP64
  /\ code (always (failing 4294967296) "a.slp"%string) mod 2 ^ int_bits LP64
     = 0
  /\ returned (main LP64 (always (failing 4294967296))
                    ["cslp"; "a.slp"]%string) = 0.
Proof.
  assert (H : 0 < int_bits LP64) by (simpl; lia).
  assert (Hmod : code (always (failing 4294967296) "a.slp"%string)
                   mod 2 ^ int_bits LP64 = 0) by reflexivity.
  split; [exact H | split; [exact Hmod|]].
  apply (proj2 (main_returns_zero_iff LP64 (always (failing 4294967296))
                  ["cslp"; "a.slp"]%string H)).
  split; [reflexivity | exact Hmod].
Defined.

Lemma representable_code_witness :
  0 < int_bits LP64
  /\ INT_MIN LP64 <= code (always (failing (-2)) "a.slp"%string)
     <= INT_MAX LP64
  /\ returned (main LP64 (always (failing (-2))) ["cslp"; "a.slp"]%string)
     = -2.
Proof.
  assert (H : 0 < int_bits LP64) by (simpl; lia).
  assert (Hfit : INT_MIN LP64 <= code (always (failing (-2)) "a.slp"%string)
                 <= INT_MAX LP64)
    by (unfold INT_MIN, INT_MAX; simpl; lia).
  split; [exact H | split; [exact Hfit|]].
  exact (representable_code_is_returned_unchanged LP64
           (always (failing (-2))) "cslp" "a.slp" H Hfit).
Defined.

Lemma printed_message_witness :
  trace (report (-1)) = [Printf "Invalid SLP!" []]
  /\ -1 = -1.
Proof.
  assert (H : trace (report (-1)) = [Printf "Invalid SLP!" []])
    by reflexivity.
  split; [exact H|].
  exact (printed_message_identifies_the_code (-1) (-1) "Invalid SLP!" [] H H).
Defined.

Lemma narrow_ssize_witness :
  0 < size_bits ILP32 <= int_bits ILP32
  /\ is_ssize_t ILP32 (code (always (failing (-2147483648)) "a.slp"%string))
  /\ returned (main ILP32 (always (failing (-2147483648)))
                    ["cslp"; "a.slp"]%string) = -2147483648.
Proof.
  assert (H : 0 < size_bits ILP32 <= int_bits ILP32) by (simpl; lia).
  assert (Hc : is_ssize_t ILP32
                 (code (always (failing (-2147483648)) "a.slp"%string)))
    by (unfold is_ssize_t; simpl; lia).
  split; [exact H | split; [exact Hc|]].
  exact (proj1 (narrow_ssize_code_is_returned_unchanged ILP32
                  (always (failing (-2147483648))) "cslp" "a.slp" H Hc)).
Defined.
